(** * The suggestion pipeline of [src/pages/Home.tsx]

    A shallow embedding of the [Home] component's behavioural core:
    the [generateDomains] handler (trigger guard, configuration check,
    one backend call, transformation of the response text, error
    handling) and the [getGoDaddyUrl] URL builder.

    JavaScript strings are sequences of UTF-16 code units.  The
    embedding covers the code units U+0000..U+00FF, one [ascii] each,
    so a string is a [list ascii].  On that range [String.prototype.trim],
    [toLowerCase] and [split] are modelled exactly as ECMAScript defines
    them. *)

From Stdlib Require Import List Ascii String Bool NArith Arith Lia.
Import ListNotations.

(** ** Strings *)

Definition jsstring := list ascii.

(** A string literal of the source. *)
Definition lit (s : string) : jsstring := list_ascii_of_string s.

(** The line feed, written ['\n'] in the source. *)
Definition LF : ascii := ascii_of_N 10.
(** The carriage return. *)
Definition CR : ascii := ascii_of_N 13.

Definition code (c : ascii) : N := N_of_ascii c.

Definition in_range (lo hi : N) (c : ascii) : bool :=
  ((lo <=? code c) && (code c <=? hi))%N.

(** ECMAScript [WhiteSpace] and [LineTerminator] code points below
    U+0100: TAB, LF, VT, FF, CR, SP and NBSP.  These are what [trim]
    strips. *)
Definition is_whitespace (c : ascii) : bool :=
  in_range 9 13 c || (code c =? 32)%N || (code c =? 160)%N.

(** Upper-case letters below U+0100: A..Z, and U+00C0..U+00DE without
    the multiplication sign U+00D7. *)
Definition is_upper (c : ascii) : bool :=
  in_range 65 90 c || (in_range 192 222 c && negb (code c =? 215)%N).

(** [toLowerCase] on one code unit: every upper-case letter of the
    range has its lower-case partner 32 places further. *)
Definition lower_char (c : ascii) : ascii :=
  if is_upper c then ascii_of_N (code c + 32) else c.

(** [String.prototype.toLowerCase] *)
Definition toLowerCase (s : jsstring) : jsstring := map lower_char s.

Fixpoint dropWhile (p : ascii -> bool) (s : jsstring) : jsstring :=
  match s with
  | [] => []
  | c :: rest => if p c then dropWhile p rest else s
  end.

(** [String.prototype.trimStart], [trimEnd] and [trim] *)
Definition trimStart (s : jsstring) : jsstring := dropWhile is_whitespace s.
Definition trimEnd (s : jsstring) : jsstring :=
  rev (dropWhile is_whitespace (rev s)).
Definition trim (s : jsstring) : jsstring := trimEnd (trimStart s).

(** A string used as a condition is true exactly when it is not empty. *)
Definition truthy (s : jsstring) : bool :=
  match s with [] => false | _ :: _ => true end.

(** [String.prototype.split] with a one-character separator.  The empty
    string splits into one empty piece. *)
Fixpoint split (sep : ascii) (s : jsstring) : list jsstring :=
  match s with
  | [] => [[]]
  | c :: rest =>
      if Ascii.eqb c sep then [] :: split sep rest
      else match split sep rest with
           | [] => [[c]]
           | piece :: pieces => (c :: piece) :: pieces
           end
  end.

(** ** Data model *)

Record DomainSuggestion := {
  name : jsstring;
  extensions : list jsstring
}.

(** The array literal in the [map] callback of [generateDomains]. *)
Definition EXTENSIONS : list jsstring :=
  [lit ".com"; lit ".io"; lit ".co"; lit ".net"; lit ".org"; lit ".ai"].

(** The four [useState] cells of the component. *)
Record UiState := {
  description : jsstring;
  domains : list DomainSuggestion;
  loading : bool;
  error : option jsstring
}.

(** A thrown value: an instance of [Error] with its [message], or any
    other value. *)
Inductive Thrown :=
| ErrorObject (message : jsstring)
| OtherValue.

(** The backend handle [genAI.getGenerativeModel(..).generateContent]
    followed by [result.response.text()]: a prompt is answered by a
    text or by a thrown value. *)
Definition Backend := jsstring -> Thrown + jsstring.

(** The UI state together with the log of prompts sent over the
    network, oldest first. *)
Record World := {
  ui : UiState;
  requests : list jsstring
}.

(** ** Effects

    The handler mutates the state cells, may throw, and talks to the
    network.  A computation takes a world and returns a value or a
    thrown value, together with the world it leaves: writes made before
    a throw stay. *)

Module Eff.

Definition M (A : Type) : Type := World -> (Thrown + A) * World.

Definition ret {A} (a : A) : M A := fun w => (inr a, w).

Definition bind {A B} (m : M A) (k : A -> M B) : M B :=
  fun w =>
    match m w with
    | (inl e, w') => (inl e, w')
    | (inr a, w') => k a w'
    end.

Definition throw {A} (e : Thrown) : M A := fun w => (inl e, w).

(** [try { body } catch (err) { handler err }] *)
Definition try_catch {A} (body : M A) (handler : Thrown -> M A) : M A :=
  fun w =>
    match body w with
    | (inl e, w') => handler e w'
    | (inr a, w') => (inr a, w')
    end.

(** [try { body } finally { fin }]: [fin] runs either way; the
    outcome of [body] stands unless [fin] throws. *)
Definition try_finally {A} (body : M A) (fin : M unit) : M A :=
  fun w =>
    match body w with
    | (r, w') =>
        match fin w' with
        | (inl e, w'') => (inl e, w'')
        | (inr _, w'') => (r, w'')
        end
    end.

(** Reading a state cell. *)
Definition read {A} (f : UiState -> A) : M A := fun w => (inr (f (ui w)), w).

Definition update (f : UiState -> UiState) : M unit :=
  fun w => (inr tt, {| ui := f (ui w); requests := requests w |}).

Definition setDomains (d : list DomainSuggestion) : M unit :=
  update (fun s => {| description := description s; domains := d;
                      loading := loading s; error := error s |}).

Definition setLoading (b : bool) : M unit :=
  update (fun s => {| description := description s; domains := domains s;
                      loading := b; error := error s |}).

Definition setError (e : option jsstring) : M unit :=
  update (fun s => {| description := description s; domains := domains s;
                      loading := loading s; error := e |}).

(** [await model.generateContent(prompt)] and [result.response.text()]:
    the prompt goes on the wire, then the backend answers or throws. *)
Definition generateContent (backend : Backend) (prompt : jsstring) : M jsstring :=
  fun w =>
    let w' := {| ui := ui w; requests := requests w ++ [prompt] |} in
    match backend prompt with
    | inl e => (inl e, w')
    | inr text => (inr text, w')
    end.

End Eff.

Import Eff.

Notation "x <- m ;; k" := (bind m (fun x => k))
  (at level 61, m at next level, right associativity).
Notation "m ;;; k" := (bind m (fun _ => k))
  (at level 61, right associativity).

(** ** The handler *)

Definition CONFIG_MESSAGE : jsstring :=
  lit "API key not configured. Please add your Gemini API key to continue.".

Definition GENERIC_MESSAGE : jsstring :=
  lit "An error occurred while generating domain names".

(** The template literal [prompt]. *)
Definition make_prompt (description : jsstring) : jsstring :=
  lit "Generate 5 creative, memorable, and brandable website domain names based on this description: "
  ++ description
  ++ lit ". Consider SEO, memorability, and brand potential. Each name should be short, catchy, and unique. For each name, suggest multiple domain extensions (.com, .io, .co, .net, .org, .ai). Return only the domain names without extensions, one per line, without any additional text or explanations.".

(** [result.response.text().split('\n').filter(name => name.trim())] *)
Definition nameList (text : jsstring) : list jsstring :=
  filter (fun name => truthy (trim name)) (split LF text).

(** [nameList.map(name => ({ name: name.toLowerCase(), extensions: [...] }))] *)
Definition domainSuggestions (names : list jsstring) : list DomainSuggestion :=
  map (fun name => {| name := toLowerCase name; extensions := EXTENSIONS |}) names.

(** [err instanceof Error ? err.message : '...'] *)
Definition error_text (err : Thrown) : jsstring :=
  match err with
  | ErrorObject message => message
  | OtherValue => GENERIC_MESSAGE
  end.

Section Handler.

(** The module-level handle imported from [@/lib/gemini]: absent when
    no API key is configured. *)
Variable genAI : option Backend.

Definition generateDomains : M unit :=
  description <- read description ;;
  if negb (truthy (trim description)) then ret tt
  else
    setLoading true ;;;
    setError None ;;;
    try_finally
      (try_catch
         (backend <- match genAI with
                     | None => throw (ErrorObject CONFIG_MESSAGE)
                     | Some backend => ret backend
                     end ;;
          let prompt := make_prompt description in
          text <- generateContent backend prompt ;;
          setDomains (domainSuggestions (nameList text)))
         (fun err =>
            setError (Some (error_text err)) ;;;
            setDomains []))
      (setLoading false).

(** The world after the handler has settled. *)
Definition after_generate (w : World) : World := snd (generateDomains w).

End Handler.

(** [getGoDaddyUrl]: a template literal, the two arguments spliced in
    as they are. *)
Definition URL_PREFIX : jsstring :=
  lit "https://www.godaddy.com/domainsearch/find?domainToCheck=".

Definition getGoDaddyUrl (domain extension : jsstring) : jsstring :=
  URL_PREFIX ++ domain ++ extension.

(** ** The specification's vocabulary

    The definitions below follow the wording of the specification; the
    theorems compare them with the code above. *)

(** A line that is empty or holds white space only. *)
Definition blank (line : jsstring) : bool := forallb is_whitespace line.

(** A line with no upper-case letter in it. *)
Definition already_lower (line : jsstring) : bool :=
  forallb (fun c => negb (is_upper c)) line.

(** The response transformation as the specification words it: go
    through the lines in order, drop the blank ones, lower-case the
    others and attach the six extensions. *)
Fixpoint spec_suggestions (lines : list jsstring) : list DomainSuggestion :=
  match lines with
  | [] => []
  | line :: more =>
      if blank line then spec_suggestions more
      else {| name := toLowerCase line;
              extensions := [lit ".com"; lit ".io"; lit ".co";
                             lit ".net"; lit ".org"; lit ".ai"] |}
             :: spec_suggestions more
  end.

Definition spec_transform (text : jsstring) : list DomainSuggestion :=
  spec_suggestions (split LF text).

(** The number N of non-empty lines of a response. *)
Fixpoint count_nonblank (lines : list jsstring) : nat :=
  match lines with
  | [] => 0
  | line :: more =>
      if blank line then count_nonblank more else S (count_nonblank more)
  end.

(** Whether a failure carries a message of its own. *)
Definition carries_message (err : Thrown) : bool :=
  match err with
  | ErrorObject message => truthy message
  | OtherValue => false
  end.

(** Characters that stand for themselves in a URL component: letters,
    digits and [- _ . ! ~ * ' ( )]. *)
Definition unreserved (c : ascii) : bool :=
  in_range 65 90 c || in_range 97 122 c || in_range 48 57 c
  || existsb (Ascii.eqb c) (lit "-_.!~*'()").

Definition hex_digit (n : N) : ascii :=
  nth (N.to_nat n) (lit "0123456789ABCDEF") "0"%char.

Definition is_hex_digit (c : ascii) : bool :=
  in_range 48 57 c || in_range 65 70 c || in_range 97 102 c.

Definition percent_byte (b : N) : jsstring :=
  ["%"%char; hex_digit (b / 16); hex_digit (b mod 16)].

(** The UTF-8 bytes of a code point below U+0100. *)
Definition utf8 (c : ascii) : list N :=
  if (code c <? 128)%N then [code c]
  else [(192 + code c / 64)%N; (128 + code c mod 64)%N].

(** Percent-escaping of a query value, as [encodeURIComponent] does
    it: unreserved characters stay, every other character becomes the
    percent-escaped bytes of its UTF-8 form. *)
Definition percent_escape (s : jsstring) : jsstring :=
  flat_map (fun c => if unreserved c then [c]
                     else flat_map percent_byte (utf8 c)) s.

(** A well-formed query value: unreserved characters and percent
    escapes only, so that no character of it ends the value, starts
    another parameter or falls outside the URL alphabet. *)
Fixpoint valid_query_value (s : jsstring) : bool :=
  match s with
  | [] => true
  | c :: rest =>
      if unreserved c then valid_query_value rest
      else if Ascii.eqb c "%" then
        match rest with
        | h1 :: h2 :: rest' =>
            is_hex_digit h1 && is_hex_digit h2 && valid_query_value rest'
        | _ => false
        end
      else false
  end.

(** The part of a URL after the fixed template. *)
Definition query_value (url : jsstring) : jsstring :=
  skipn (List.length URL_PREFIX) url.

(** Putting lines back together with the separator between them. *)
Fixpoint join (sep : ascii) (pieces : list jsstring) : jsstring :=
  match pieces with
  | [] => []
  | [piece] => piece
  | piece :: more => piece ++ sep :: join sep more
  end.

(** ** Sample data *)

Definition bakery_response : jsstring :=
  lit "CroissantCo" ++ [LF] ++ lit "ParisCrumb" ++ [LF; LF] ++ lit "LeBonPain".

Definition fresh_ui (d : jsstring) : UiState :=
  {| description := d; domains := []; loading := false; error := None |}.

Definition fresh_world (d : jsstring) : World :=
  {| ui := fresh_ui d; requests := [] |}.

(** A world left by an earlier successful attempt. *)
Definition used_world (d : jsstring) : World :=
  {| ui := {| description := d;
              domains := [{| name := lit "oldname"; extensions := EXTENSIONS |}];
              loading := false;
              error := None |};
     requests := [make_prompt d] |}.

Definition names_of (ds : list DomainSuggestion) : list jsstring := map name ds.

Definition answers (text : jsstring) : Backend := fun _ => inr text.
Definition fails_with (e : Thrown) : Backend := fun _ => inl e.

(** ** The rendered page

    What the JSX of [Home] puts on the page, as far as it depends on
    the state cells: the text area, the button, the error banner and
    the result cards with their links. *)

Record Link := {
  href : jsstring;
  label : jsstring
}.

Record Card := {
  title : jsstring;
  links : list Link
}.

Record View := {
  textarea : jsstring;
  button_disabled : bool;
  button_busy : bool;
  banner : option jsstring;
  cards : list Card
}.

(** [disabled={loading || !description.trim()}] *)
Definition disabled (s : UiState) : bool :=
  loading s || negb (truthy (trim (description s))).

(** One card: the heading [domain.name] and, for each extension, an
    anchor with [href={getGoDaddyUrl(domain.name, ext)}] around the
    text [{domain.name}{ext}]. *)
Definition render_card (d : DomainSuggestion) : Card :=
  {| title := name d;
     links := map (fun ext => {| href := getGoDaddyUrl (name d) ext;
                                 label := name d ++ ext |})
                  (extensions d) |}.

(** [{error && (...)}]: null and the empty string render nothing.
    [{domains.length > 0 && (...)}]: no cards for an empty list. *)
Definition render (s : UiState) : View :=
  {| textarea := description s;
     button_disabled := disabled s;
     button_busy := loading s;
     banner := match error s with
               | Some e => if truthy e then Some e else None
               | None => None
               end;
     cards := if 0 <? List.length (domains s)
              then map render_card (domains s)
              else [] |}.

(** ** The page as an event loop

    [generateDomains] is an async function: it runs up to the [await],
    the page stays live while the call is out, and the rest runs when
    the call settles. *)

(** [onChange={(e) => setDescription(e.target.value)}] *)
Definition setDescription (text : jsstring) : M unit :=
  update (fun s => {| description := text; domains := domains s;
                      loading := loading s; error := error s |}).

(** Putting a prompt on the wire. *)
Definition send (prompt : jsstring) : M unit :=
  fun w => (inr tt, {| ui := ui w; requests := requests w ++ [prompt] |}).

(** The catch clause of [generateDomains]. *)
Definition on_error (err : Thrown) : M unit :=
  setError (Some (error_text err)) ;;;
  setDomains [].

(** [generateDomains] up to the [await]: the result is the prompt now
    awaiting its answer, or [None] when the handler has already run to
    its end. *)
Definition generate_begin (genAI : option Backend) : M (option jsstring) :=
  description <- read description ;;
  if negb (truthy (trim description)) then ret None
  else
    setLoading true ;;;
    setError None ;;;
    match genAI with
    | None =>
        try_finally
          (try_catch (throw (ErrorObject CONFIG_MESSAGE)) on_error)
          (setLoading false) ;;;
        ret None
    | Some _ =>
        send (make_prompt description) ;;;
        ret (Some (make_prompt description))
    end.

(** [generateDomains] from the [await] on, given how the call settled. *)
Definition generate_resume (outcome : Thrown + jsstring) : M unit :=
  try_finally
    (try_catch
       (text <- (fun w => (outcome, w)) ;;
        setDomains (domainSuggestions (nameList text)))
       on_error)
    (setLoading false).

(** The page between events: the state cells, the request log, and
    the prompt of the call that is out, if any. *)
Record Session := {
  world : World;
  pending : option jsstring
}.

Inductive Event :=
| Input (text : jsstring)
| Click
| Settle (outcome : Thrown + jsstring).

Section Page.

Variable genAI : option Backend.

(** A click on a disabled button does not reach [onClick]; a settle
    with nothing out cannot happen and is ignored. *)
Definition step (s : Session) (ev : Event) : Session :=
  match ev with
  | Input text =>
      {| world := snd (setDescription text (world s)); pending := pending s |}
  | Click =>
      if disabled (ui (world s)) then s
      else match generate_begin genAI (world s) with
           | (inr p, w') => {| world := w'; pending := p |}
           | (inl _, w') => {| world := w'; pending := None |}
           end
  | Settle outcome =>
      match pending s with
      | None => s
      | Some _ =>
          {| world := snd (generate_resume outcome (world s)); pending := None |}
      end
  end.

Definition run (events : list Event) (s : Session) : Session :=
  fold_left step events s.

End Page.

(** The page as first rendered: the initial values of the four
    [useState] cells, nothing sent, nothing out. *)
Definition initial : Session :=
  {| world := {| ui := {| description := []; domains := [];
                          loading := false; error := None |};
                 requests := [] |};
     pending := None |}.

Definition is_settle (ev : Event) : bool :=
  match ev with Settle _ => true | _ => false end.

Definition in_flight (s : Session) : nat :=
  match pending s with Some _ => 1 | None => 0 end.

(** What every stored suggestion looks like. *)
Definition well_formed (d : DomainSuggestion) : Prop :=
  blank (name d) = false
  /\ ~ In LF (name d)
  /\ already_lower (name d) = true
  /\ extensions d = EXTENSIONS.

(** What holds of the page between any two events. *)
Definition coherent (s : Session) : Prop :=
  (loading (ui (world s)) = true <-> pending s <> None)
  /\ (pending s <> None -> error (ui (world s)) = None)
  /\ (forall p, pending s = Some p ->
      exists earlier, requests (world s) = earlier ++ [p])
  /\ (error (ui (world s)) <> None -> domains (ui (world s)) = [])
  /\ Forall well_formed (domains (ui (world s))).

(** Case analysis over all 256 code units. *)
Ltac each_char c :=
  destruct c as [[] [] [] [] [] [] [] []]; vm_compute; try reflexivity; try discriminate.

(** * Properties *)

(** ** Running the model on small inputs *)

Example bakery_names :
  names_of (domainSuggestions (nameList bakery_response))
  = [lit "croissantco"; lit "pariscrumb"; lit "lebonpain"].
Proof. reflexivity. Qed.

Example split_empty : split LF [] = [[]].
Proof. reflexivity. Qed.

Example split_trailing : split LF (lit "a" ++ [LF]) = [lit "a"; []].
Proof. reflexivity. Qed.

Example trim_both : trim (lit "  Foo Bar ") = lit "Foo Bar".
Proof. reflexivity. Qed.

Example url_plain :
  getGoDaddyUrl (lit "foo") (lit ".com")
  = lit "https://www.godaddy.com/domainsearch/find?domainToCheck=foo.com".
Proof. reflexivity. Qed.

Example escape_sample :
  percent_escape (lit "a b&c.com") = lit "a%20b%26c.com".
Proof. reflexivity. Qed.

Example escape_latin : percent_escape [ascii_of_N 233] = lit "%C3%A9".
Proof. reflexivity. Qed.

Example lower_latin : toLowerCase [ascii_of_N 201; ascii_of_N 215; ascii_of_N 223]
                      = [ascii_of_N 233; ascii_of_N 215; ascii_of_N 223].
Proof. reflexivity. Qed.

Example run_bakery :
  ui (after_generate (Some (answers bakery_response))
        (fresh_world (lit "a bakery in Paris")))
  = {| description := lit "a bakery in Paris";
       domains := [ {| name := lit "croissantco"; extensions := EXTENSIONS |};
                    {| name := lit "pariscrumb"; extensions := EXTENSIONS |};
                    {| name := lit "lebonpain"; extensions := EXTENSIONS |} ];
       loading := false;
       error := None |}.
Proof. reflexivity. Qed.

(** ** Characters *)

Lemma lower_char_not_upper (c : ascii) : is_upper (lower_char c) = false.
Proof. each_char c. Qed.

Lemma lower_char_fixes_lower (c : ascii) :
  is_upper c = false -> lower_char c = c.
Proof. unfold lower_char. intros ->. reflexivity. Qed.

Lemma lower_char_whitespace (c : ascii) :
  is_whitespace c = true -> lower_char c = c.
Proof. each_char c. Qed.

(** ** Lower-casing *)

Lemma toLowerCase_app (s t : jsstring) :
  toLowerCase (s ++ t) = toLowerCase s ++ toLowerCase t.
Proof. apply map_app. Qed.

Lemma toLowerCase_length (s : jsstring) :
  List.length (toLowerCase s) = List.length s.
Proof. apply length_map. Qed.

Lemma toLowerCase_already_lower (s : jsstring) :
  already_lower s = true -> toLowerCase s = s.
Proof.
  induction s as [|c s IH]; simpl; intros H; [reflexivity|].
  apply andb_true_iff in H as [Hc Hs].
  apply negb_true_iff in Hc.
  rewrite (lower_char_fixes_lower _ Hc), (IH Hs). reflexivity.
Qed.

Lemma toLowerCase_is_lower (s : jsstring) :
  already_lower (toLowerCase s) = true.
Proof.
  induction s as [|c s IH]; simpl; [reflexivity|].
  rewrite lower_char_not_upper, IH. reflexivity.
Qed.

Lemma toLowerCase_idempotent (s : jsstring) :
  toLowerCase (toLowerCase s) = toLowerCase s.
Proof. apply toLowerCase_already_lower, toLowerCase_is_lower. Qed.

Lemma toLowerCase_whitespace (s : jsstring) :
  blank s = true -> toLowerCase s = s.
Proof.
  induction s as [|c s IH]; simpl; intros H; [reflexivity|].
  apply andb_true_iff in H as [Hc Hs].
  rewrite (lower_char_whitespace _ Hc), (IH Hs). reflexivity.
Qed.

(** ** Trimming *)

Lemma dropWhile_nil (p : ascii -> bool) (s : jsstring) :
  dropWhile p s = [] <-> forallb p s = true.
Proof.
  induction s as [|c s IH]; simpl.
  - split; reflexivity.
  - destruct (p c); simpl.
    + exact IH.
    + split; discriminate.
Qed.

Lemma dropWhile_head (p : ascii -> bool) (s : jsstring) c r :
  dropWhile p s = c :: r -> p c = false.
Proof.
  induction s as [|d s IH]; simpl; [discriminate|].
  destruct (p d) eqn:E; [exact IH|].
  intros [= <- _]. exact E.
Qed.

Lemma blank_app (s t : jsstring) : blank (s ++ t) = blank s && blank t.
Proof. apply forallb_app. Qed.

Lemma blank_rev (s : jsstring) : blank (rev s) = blank s.
Proof.
  induction s as [|c s IH]; simpl; [reflexivity|].
  rewrite blank_app, IH. simpl. rewrite andb_true_r. apply andb_comm.
Qed.

Lemma truthy_rev (s : jsstring) : truthy (rev s) = truthy s.
Proof.
  destruct s as [|c s]; [reflexivity|]. simpl.
  destruct (rev s); reflexivity.
Qed.

Lemma truthy_false (s : jsstring) : truthy s = false <-> s = [].
Proof. destruct s; simpl; split; congruence. Qed.

(** The filter callback keeps exactly the lines that are not blank. *)
Lemma truthy_trim (s : jsstring) : truthy (trim s) = negb (blank s).
Proof.
  unfold trim, trimEnd, trimStart. rewrite truthy_rev.
  destruct (dropWhile is_whitespace s) as [|c r] eqn:E.
  - apply dropWhile_nil in E. unfold blank. rewrite E. reflexivity.
  - assert (Hs : blank s = false).
    { destruct (blank s) eqn:B; [|reflexivity].
      apply dropWhile_nil in B. congruence. }
    rewrite Hs. simpl negb.
    destruct (dropWhile is_whitespace (rev (c :: r))) eqn:D; [|reflexivity].
    apply dropWhile_nil in D. fold (blank (rev (c :: r))) in D.
    rewrite blank_rev in D. simpl in D.
    rewrite (dropWhile_head _ _ _ _ E) in D. discriminate.
Qed.

Lemma blank_has_no_ink (s : jsstring) :
  blank s = negb (existsb (fun c => negb (is_whitespace c)) s).
Proof.
  induction s as [|c s IH]; simpl; [reflexivity|].
  rewrite IH. destruct (is_whitespace c); reflexivity.
Qed.

(** ** The transformation against its specification *)

Lemma suggestions_refine (lines : list jsstring) :
  domainSuggestions (filter (fun name => truthy (trim name)) lines)
  = spec_suggestions lines.
Proof.
  induction lines as [|l ls IH]; simpl; [reflexivity|].
  rewrite truthy_trim. destruct (blank l); simpl.
  - exact IH.
  - rewrite IH. reflexivity.
Qed.

Lemma transform_refines (text : jsstring) :
  domainSuggestions (nameList text) = spec_transform text.
Proof. apply suggestions_refine. Qed.

Lemma spec_suggestions_length (lines : list jsstring) :
  List.length (spec_suggestions lines) = count_nonblank lines.
Proof.
  induction lines as [|l ls IH]; simpl; [reflexivity|].
  destruct (blank l); simpl; congruence.
Qed.

Lemma spec_suggestions_extensions (lines : list jsstring) :
  Forall (fun d => extensions d = EXTENSIONS) (spec_suggestions lines).
Proof.
  induction lines as [|l ls IH]; simpl; [constructor|].
  destruct (blank l); [exact IH|]. constructor; [reflexivity|exact IH].
Qed.

Lemma spec_suggestions_names (lines : list jsstring) :
  names_of (spec_suggestions lines)
  = map toLowerCase (filter (fun l => negb (blank l)) lines).
Proof.
  induction lines as [|l ls IH]; simpl; [reflexivity|].
  destruct (blank l); simpl; [exact IH|]. rewrite <- IH. reflexivity.
Qed.

Lemma spec_suggestions_all_blank (lines : list jsstring) :
  forallb blank lines = true -> spec_suggestions lines = [].
Proof.
  induction lines as [|l ls IH]; simpl; [reflexivity|].
  intros H. apply andb_true_iff in H as [Hl Hls].
  rewrite Hl. exact (IH Hls).
Qed.

(** ** The handler, path by path *)

Section Paths.

Variable genAI : option Backend.
Variable w : World.

(** The guard on line 20 returns at once. *)
Lemma generate_guarded :
  blank (description (ui w)) = true -> generateDomains genAI w = (inr tt, w).
Proof.
  intros B. unfold generateDomains, bind, read.
  rewrite truthy_trim, B. reflexivity.
Qed.

(** The backend answered. *)
Lemma generate_answered backend text :
  blank (description (ui w)) = false ->
  genAI = Some backend ->
  backend (make_prompt (description (ui w))) = inr text ->
  generateDomains genAI w
  = (inr tt,
     {| ui := {| description := description (ui w);
                 domains := domainSuggestions (nameList text);
                 loading := false;
                 error := None |};
        requests := requests w ++ [make_prompt (description (ui w))] |}).
Proof.
  intros B -> A. unfold generateDomains, bind, read.
  rewrite truthy_trim, B. simpl.
  unfold try_finally, try_catch, bind, ret, generateContent. simpl.
  rewrite A. reflexivity.
Qed.

(** The backend threw. *)
Lemma generate_thrown backend err :
  blank (description (ui w)) = false ->
  genAI = Some backend ->
  backend (make_prompt (description (ui w))) = inl err ->
  generateDomains genAI w
  = (inr tt,
     {| ui := {| description := description (ui w);
                 domains := [];
                 loading := false;
                 error := Some (error_text err) |};
        requests := requests w ++ [make_prompt (description (ui w))] |}).
Proof.
  intros B -> A. unfold generateDomains, bind, read.
  rewrite truthy_trim, B. simpl.
  unfold try_finally, try_catch, bind, ret, generateContent. simpl.
  rewrite A. reflexivity.
Qed.

(** No handle: the [throw] on line 26. *)
Lemma generate_unconfigured :
  blank (description (ui w)) = false ->
  genAI = None ->
  generateDomains genAI w
  = (inr tt,
     {| ui := {| description := description (ui w);
                 domains := [];
                 loading := false;
                 error := Some CONFIG_MESSAGE |};
        requests := requests w |}).
Proof.
  intros B ->. unfold generateDomains, bind, read.
  rewrite truthy_trim, B. reflexivity.
Qed.

End Paths.

(** ** The response transformation *)

(** C1: when the backend answers with [text], the suggestion list is the
    specification's transformation of [text] -- the lines of [text] in
    order, blank ones dropped, each kept line lower-cased as a whole --
    and the error is cleared; for the bakery response the names are
    croissantco, pariscrumb, lebonpain and the error is null. *)
Theorem response_transformation :
  (forall genAI backend w text,
      blank (description (ui w)) = false ->
      genAI = Some backend ->
      backend (make_prompt (description (ui w))) = inr text ->
      domains (ui (after_generate genAI w)) = spec_transform text
      /\ names_of (domains (ui (after_generate genAI w)))
         = map toLowerCase (filter (fun l => negb (blank l)) (split LF text))
      /\ error (ui (after_generate genAI w)) = None)
  /\ (let w' := after_generate (Some (answers bakery_response))
                  (used_world (lit "a bakery in Paris")) in
      names_of (domains (ui w'))
      = [lit "croissantco"; lit "pariscrumb"; lit "lebonpain"]
      /\ error (ui w') = None).
Proof.
  split.
  - intros genAI backend w text B G A.
    unfold after_generate. rewrite (generate_answered genAI w backend text B G A). simpl.
    rewrite transform_refines. unfold spec_transform.
    rewrite spec_suggestions_names. repeat split.
  - split; reflexivity.
Qed.

Lemma response_transformation_witness :
  let w := fresh_world (lit "a bakery in Paris") in
  let genAI := Some (answers bakery_response) in
  blank (description (ui w)) = false
  /\ domains (ui (after_generate genAI w)) = spec_transform bakery_response
  /\ names_of (domains (ui (after_generate genAI w)))
     = map toLowerCase (filter (fun l => negb (blank l)) (split LF bakery_response))
  /\ error (ui (after_generate genAI w)) = None.
Proof.
  split; [reflexivity|].
  apply (proj1 response_transformation
           (Some (answers bakery_response)) (answers bakery_response)
           (fresh_world (lit "a bakery in Paris")) bakery_response);
    reflexivity.
Defined.

(** C2: for a non-blank description and a response with N non-empty
    lines, the suggestion list has exactly N entries and every entry
    carries the list .com, .io, .co, .net, .org, .ai in that order,
    whatever the response holds. *)
Theorem suggestion_count_and_extensions :
  forall genAI backend w text N,
    blank (description (ui w)) = false ->
    genAI = Some backend ->
    backend (make_prompt (description (ui w))) = inr text ->
    count_nonblank (split LF text) = N ->
    1 <= N ->
    List.length (domains (ui (after_generate genAI w))) = N
    /\ Forall (fun s => extensions s
                        = [lit ".com"; lit ".io"; lit ".co";
                           lit ".net"; lit ".org"; lit ".ai"])
              (domains (ui (after_generate genAI w))).
Proof.
  intros genAI backend w text N B G A HN _.
  unfold after_generate. rewrite (generate_answered genAI w backend text B G A). simpl.
  rewrite transform_refines. unfold spec_transform. split.
  - rewrite spec_suggestions_length. exact HN.
  - apply spec_suggestions_extensions.
Qed.

Lemma suggestion_count_and_extensions_witness :
  let w := used_world (lit "a bakery in Paris") in
  let genAI := Some (answers bakery_response) in
  count_nonblank (split LF bakery_response) = 3
  /\ List.length (domains (ui (after_generate genAI w))) = 3
  /\ Forall (fun s => extensions s
                      = [lit ".com"; lit ".io"; lit ".co";
                         lit ".net"; lit ".org"; lit ".ai"])
            (domains (ui (after_generate genAI w))).
Proof.
  split; [reflexivity|].
  apply (suggestion_count_and_extensions
           (Some (answers bakery_response)) (answers bakery_response)
           (used_world (lit "a bakery in Paris")) bakery_response 3);
    try reflexivity.
  lia.
Defined.

(** C7: a response with no usable line is a success: the handler does
    not throw, the suggestion list is empty and no error is set. *)
Theorem empty_result_is_success :
  forall genAI backend w text,
    blank (description (ui w)) = false ->
    genAI = Some backend ->
    backend (make_prompt (description (ui w))) = inr text ->
    forallb blank (split LF text) = true ->
    fst (generateDomains genAI w) = inr tt
    /\ domains (ui (after_generate genAI w)) = []
    /\ error (ui (after_generate genAI w)) = None.
Proof.
  intros genAI backend w text B G A Z.
  unfold after_generate. rewrite (generate_answered genAI w backend text B G A). simpl.
  rewrite transform_refines. unfold spec_transform.
  rewrite (spec_suggestions_all_blank _ Z). repeat split.
Qed.

Lemma empty_result_is_success_witness :
  let text := lit "  " ++ [LF; LF] ++ [CR; LF] ++ lit " " in
  let w := used_world (lit "a bakery in Paris") in
  let genAI := Some (answers text) in
  forallb blank (split LF text) = true
  /\ fst (generateDomains genAI w) = inr tt
  /\ domains (ui (after_generate genAI w)) = []
  /\ error (ui (after_generate genAI w)) = None.
Proof.
  split; [reflexivity|].
  apply (empty_result_is_success
           (Some (answers (lit "  " ++ [LF; LF] ++ [CR; LF] ++ lit " ")))
           (answers (lit "  " ++ [LF; LF] ++ [CR; LF] ++ lit " "))
           (used_world (lit "a bakery in Paris"))
           (lit "  " ++ [LF; LF] ++ [CR; LF] ++ lit " "));
    reflexivity.
Defined.

(** ** The guard and the configuration check *)

(** C5: with a description that is empty once trimmed (that is, empty
    or white space only), the handler returns at once: nothing is sent
    and the whole state, suggestion list and error included, is as
    before. *)
Theorem blank_description_is_noop :
  forall genAI w,
    trim (description (ui w)) = [] \/ blank (description (ui w)) = true ->
    generateDomains genAI w = (inr tt, w)
    /\ requests (after_generate genAI w) = requests w
    /\ domains (ui (after_generate genAI w)) = domains (ui w)
    /\ error (ui (after_generate genAI w)) = error (ui w).
Proof.
  intros genAI w H.
  assert (B : blank (description (ui w)) = true).
  { destruct H as [H|H]; [|exact H].
    apply truthy_false in H. rewrite truthy_trim in H.
    apply negb_false_iff in H. exact H. }
  unfold after_generate. rewrite (generate_guarded genAI w B).
  repeat split.
Qed.

Lemma blank_description_is_noop_witness :
  let w := {| ui := {| description := lit "   ";
                       domains := [{| name := lit "oldname";
                                      extensions := EXTENSIONS |}];
                       loading := false;
                       error := Some (lit "earlier failure") |};
              requests := [] |} in
  let genAI := Some (answers bakery_response) in
  trim (description (ui w)) = []
  /\ generateDomains genAI w = (inr tt, w)
  /\ requests (after_generate genAI w) = requests w
  /\ domains (ui (after_generate genAI w)) = domains (ui w)
  /\ error (ui (after_generate genAI w)) = error (ui w).
Proof.
  split; [reflexivity|].
  apply blank_description_is_noop. left. reflexivity.
Defined.

(** C6: without a configured backend the attempt fails before anything
    is sent: the request log is unchanged, the error is the
    configuration message and the suggestion list is empty. *)
Theorem unconfigured_backend_fails_first :
  forall w,
    blank (description (ui w)) = false ->
    requests (after_generate None w) = requests w
    /\ error (ui (after_generate None w)) = Some CONFIG_MESSAGE
    /\ domains (ui (after_generate None w)) = []
    /\ loading (ui (after_generate None w)) = false.
Proof.
  intros w B. unfold after_generate.
  rewrite (generate_unconfigured None w B eq_refl). repeat split.
Qed.

Lemma unconfigured_backend_fails_first_witness :
  let w := used_world (lit "a bakery in Paris") in
  blank (description (ui w)) = false
  /\ requests (after_generate None w) = requests w
  /\ error (ui (after_generate None w)) = Some CONFIG_MESSAGE
  /\ domains (ui (after_generate None w)) = []
  /\ loading (ui (after_generate None w)) = false.
Proof.
  split; [reflexivity|].
  apply unconfigured_backend_fails_first. reflexivity.
Defined.

(** ** Failures *)

(** C4, as the code has it: on a failed attempt -- no backend handle,
    or a backend call that throws -- the suggestion list is emptied
    whatever it held, and the error becomes the failure's own message
    when the failure is an [Error], the generic message when it is not;
    that text is non-empty unless the failure is an [Error] whose
    message is the empty string. *)
Theorem failure_resets_suggestions :
  forall genAI w err,
    blank (description (ui w)) = false ->
    (genAI = None /\ err = ErrorObject CONFIG_MESSAGE)
    \/ (exists backend,
           genAI = Some backend
           /\ backend (make_prompt (description (ui w))) = inl err) ->
    domains (ui (after_generate genAI w)) = []
    /\ error (ui (after_generate genAI w))
       = Some (match err with
               | ErrorObject message => message
               | OtherValue => GENERIC_MESSAGE
               end)
    /\ (err <> ErrorObject [] ->
        exists text,
          error (ui (after_generate genAI w)) = Some text /\ text <> []).
Proof.
  intros genAI w err B H.
  assert (E : snd (generateDomains genAI w)
              = {| ui := {| description := description (ui w);
                            domains := [];
                            loading := false;
                            error := Some (error_text err) |};
                   requests := requests (snd (generateDomains genAI w)) |}).
  { destruct H as [[G ->] | [backend [G A]]].
    - rewrite (generate_unconfigured genAI w B G). reflexivity.
    - rewrite (generate_thrown genAI w backend err B G A). reflexivity. }
  unfold after_generate. rewrite E. simpl. repeat split.
  intros NE. exists (error_text err). split; [reflexivity|].
  destruct err as [[|c m]|]; simpl; try congruence.
  unfold GENERIC_MESSAGE. simpl. discriminate.
Qed.

Lemma failure_resets_suggestions_witness :
  let w := used_world (lit "a bakery in Paris") in
  let err := ErrorObject (lit "Failed to fetch") in
  let genAI := Some (fails_with err) in
  domains (ui w) <> []
  /\ domains (ui (after_generate genAI w)) = []
  /\ error (ui (after_generate genAI w)) = Some (lit "Failed to fetch")
  /\ exists text,
       error (ui (after_generate genAI w)) = Some text /\ text <> [].
Proof.
  split; [discriminate|].
  destruct (failure_resets_suggestions
              (Some (fails_with (ErrorObject (lit "Failed to fetch"))))
              (used_world (lit "a bakery in Paris"))
              (ErrorObject (lit "Failed to fetch")))
    as [D [E N]].
  - reflexivity.
  - right. exists (fails_with (ErrorObject (lit "Failed to fetch"))).
    split; reflexivity.
  - split; [exact D|]. split; [exact E|]. apply N. discriminate.
Defined.

(** C4 as the specification words it does not hold: a backend that
    throws an [Error] with an empty message leaves the empty string as
    the error, not the generic message. *)
Lemma failure_with_empty_message :
  let w' := after_generate (Some (fails_with (ErrorObject [])))
              (used_world (lit "a bakery in Paris")) in
  carries_message (ErrorObject []) = false
  /\ domains (ui w') = []
  /\ error (ui w') = Some []
  /\ error (ui w') <> Some GENERIC_MESSAGE.
Proof. repeat split. discriminate. Qed.

(** ** The registrar URL *)

Lemma query_value_of_url (domain extension : jsstring) :
  query_value (getGoDaddyUrl domain extension) = domain ++ extension.
Proof. reflexivity. Qed.

Lemma percent_escape_cons (c : ascii) (s : jsstring) :
  percent_escape (c :: s)
  = (if unreserved c then [c] else flat_map percent_byte (utf8 c))
    ++ percent_escape s.
Proof. reflexivity. Qed.

Lemma percent_escape_unreserved (s : jsstring) :
  forallb unreserved s = true -> percent_escape s = s.
Proof.
  induction s as [|c s IH]; [reflexivity|].
  simpl forallb. intros H. apply andb_true_iff in H as [Hc Hs].
  rewrite percent_escape_cons, Hc, (IH Hs). reflexivity.
Qed.

Lemma escaped_char_length (c : ascii) :
  unreserved c = false -> 3 <= List.length (flat_map percent_byte (utf8 c)).
Proof.
  intros _. unfold utf8. destruct (code c <? 128)%N; simpl; lia.
Qed.

Lemma percent_escape_grows (s : jsstring) :
  List.length s <= List.length (percent_escape s).
Proof.
  induction s as [|c s IH]; [reflexivity|].
  rewrite percent_escape_cons, length_app.
  destruct (unreserved c) eqn:U; simpl List.length.
  - lia.
  - pose proof (escaped_char_length c U). lia.
Qed.

(** Escaping leaves a string alone only when there is nothing to
    escape in it. *)
Lemma percent_escape_fixed (s : jsstring) :
  percent_escape s = s -> forallb unreserved s = true.
Proof.
  induction s as [|c s IH]; [reflexivity|].
  rewrite percent_escape_cons. simpl forallb.
  destruct (unreserved c) eqn:U.
  - simpl. intros [= H]. exact (IH H).
  - intros H. exfalso.
    apply (f_equal (@List.length ascii)) in H.
    rewrite length_app in H. simpl in H.
    pose proof (escaped_char_length c U).
    pose proof (percent_escape_grows s). lia.
Qed.

Lemma valid_unreserved (s : jsstring) :
  forallb unreserved s = true -> valid_query_value s = true.
Proof.
  induction s as [|c s IH]; [reflexivity|].
  simpl. intros H. apply andb_true_iff in H as [Hc Hs].
  rewrite Hc. exact (IH Hs).
Qed.

Lemma valid_escaped_char (c : ascii) (rest : jsstring) :
  unreserved c = false ->
  valid_query_value (flat_map percent_byte (utf8 c) ++ rest)
  = valid_query_value rest.
Proof.
  destruct c as [[] [] [] [] [] [] [] []]; intros U;
    try (vm_compute in U; discriminate U); reflexivity.
Qed.

(** What the specification's escaping produces is always a well-formed
    query value. *)
Lemma percent_escape_valid (s : jsstring) :
  valid_query_value (percent_escape s) = true.
Proof.
  induction s as [|c s IH]; [reflexivity|].
  rewrite percent_escape_cons. destruct (unreserved c) eqn:U.
  - simpl. rewrite U. exact IH.
  - rewrite (valid_escaped_char _ _ U). exact IH.
Qed.

(** C3, as the code has it: the URL is the fixed template followed by
    name+ext spliced in as it is, with nothing escaped, as the value of
    the one query parameter; it coincides with the percent-escaped form
    exactly when name+ext holds unreserved characters only, and then it
    is a valid query value. *)
Theorem url_is_template_plus_raw_name :
  forall domain extension,
    getGoDaddyUrl domain extension
    = lit "https://www.godaddy.com/domainsearch/find?domainToCheck="
      ++ (domain ++ extension)
    /\ query_value (getGoDaddyUrl domain extension) = domain ++ extension
    /\ (getGoDaddyUrl domain extension
        = URL_PREFIX ++ percent_escape (domain ++ extension)
        <-> forallb unreserved (domain ++ extension) = true)
    /\ (forallb unreserved (domain ++ extension) = true ->
        valid_query_value (query_value (getGoDaddyUrl domain extension)) = true).
Proof.
  intros domain extension. split; [reflexivity|].
  split; [apply query_value_of_url|]. split.
  - unfold getGoDaddyUrl. split.
    + intros H. apply app_inv_head in H.
      apply percent_escape_fixed. symmetry. exact H.
    + intros H. rewrite (percent_escape_unreserved _ H). reflexivity.
  - intros H. rewrite query_value_of_url. apply valid_unreserved, H.
Qed.

Lemma url_is_template_plus_raw_name_witness :
  forallb unreserved (lit "croissantco" ++ lit ".com") = true
  /\ getGoDaddyUrl (lit "croissantco") (lit ".com")
     = URL_PREFIX ++ percent_escape (lit "croissantco" ++ lit ".com")
  /\ valid_query_value
       (query_value (getGoDaddyUrl (lit "croissantco") (lit ".com"))) = true.
Proof.
  destruct (url_is_template_plus_raw_name (lit "croissantco") (lit ".com"))
    as [_ [_ [E V]]].
  split; [reflexivity|]. split.
  - apply E. reflexivity.
  - apply V. reflexivity.
Defined.

(** C3 as the specification words it does not hold: a name with a
    space and an ampersand reaches the URL unescaped, so the URL is not
    the escaped form and its query value is not well formed. *)
Lemma url_is_not_escaped :
  getGoDaddyUrl (lit "foo bar&x=1") (lit ".com")
  = lit "https://www.godaddy.com/domainsearch/find?domainToCheck=foo bar&x=1.com"
  /\ getGoDaddyUrl (lit "foo bar&x=1") (lit ".com")
     <> URL_PREFIX ++ percent_escape (lit "foo bar&x=1" ++ lit ".com")
  /\ valid_query_value
       (query_value (getGoDaddyUrl (lit "foo bar&x=1") (lit ".com"))) = false.
Proof.
  split; [reflexivity|]. split; [|reflexivity].
  vm_compute. discriminate.
Qed.

(** The suffix decides the extension: no extension of the list ends
    another. *)
Lemma extension_suffix_unique (n1 n2 e1 e2 : jsstring) :
  In e1 EXTENSIONS -> In e2 EXTENSIONS ->
  n1 ++ e1 = n2 ++ e2 -> e1 = e2.
Proof.
  unfold EXTENSIONS, lit. simpl. intros H1 H2 E.
  apply (f_equal (@rev ascii)) in E. rewrite !rev_app_distr in E.
  repeat match goal with
         | H : _ \/ _ |- _ => destruct H as [H|H]
         | H : False |- _ => destruct H
         end; subst; simpl in E; try reflexivity; discriminate E.
Qed.

(** C8: the URL is a function of its two arguments, and over names
    and the extensions of the fixed list it is injective: equal URLs
    come from equal (name, extension) pairs only. *)
Theorem url_deterministic_and_injective :
  forall n1 e1 n2 e2,
    In e1 EXTENSIONS -> In e2 EXTENSIONS ->
    (n1 = n2 /\ e1 = e2 -> getGoDaddyUrl n1 e1 = getGoDaddyUrl n2 e2)
    /\ (getGoDaddyUrl n1 e1 = getGoDaddyUrl n2 e2 -> n1 = n2 /\ e1 = e2).
Proof.
  intros n1 e1 n2 e2 H1 H2. split.
  - intros [-> ->]. reflexivity.
  - unfold getGoDaddyUrl. intros E. apply app_inv_head in E.
    pose proof (extension_suffix_unique _ _ _ _ H1 H2 E) as ->.
    apply app_inv_tail in E. split; [exact E|reflexivity].
Qed.

Lemma url_deterministic_and_injective_witness :
  getGoDaddyUrl (lit "paris") (lit ".co")
  <> getGoDaddyUrl (lit "paris") (lit ".com")
  /\ getGoDaddyUrl (lit "paris.") (lit ".io")
     <> getGoDaddyUrl (lit "paris") (lit ".io").
Proof.
  split; intros E.
  - apply (url_deterministic_and_injective
             (lit "paris") (lit ".co") (lit "paris") (lit ".com")) in E.
    + destruct E as [_ E]. discriminate E.
    + simpl. tauto.
    + simpl. tauto.
  - apply (url_deterministic_and_injective
             (lit "paris.") (lit ".io") (lit "paris") (lit ".io")) in E.
    + destruct E as [E _]. discriminate E.
    + simpl. tauto.
    + simpl. tauto.
Defined.

(** Outside the fixed list the splice can be cut in two ways: raw
    strings as second argument would not keep the URL injective. *)
Remark url_cut_elsewhere :
  getGoDaddyUrl (lit "paris") (lit ".com")
  = getGoDaddyUrl (lit "paris.") (lit "com").
Proof. reflexivity. Qed.

(** ** Lines *)

Lemma split_nonempty (sep : ascii) (s : jsstring) : split sep s <> [].
Proof.
  destruct s as [|c s]; simpl; [discriminate|].
  destruct (Ascii.eqb c sep); [discriminate|].
  destruct (split sep s); discriminate.
Qed.

(** Splitting removes the separators and nothing else. *)
Lemma join_split (sep : ascii) (s : jsstring) : join sep (split sep s) = s.
Proof.
  induction s as [|c s IH]; [reflexivity|].
  simpl split. destruct (Ascii.eqb_spec c sep) as [->|N].
  - pose proof (split_nonempty sep s) as NE.
    destruct (split sep s) as [|p ps]; [congruence|].
    simpl in *. rewrite IH. reflexivity.
  - pose proof (split_nonempty sep s) as NE.
    destruct (split sep s) as [|p ps]; [congruence|].
    destruct ps as [|q qs]; simpl in *; rewrite <- IH; reflexivity.
Qed.

(** No piece contains the separator. *)
Lemma split_pieces_clean (sep : ascii) (s piece : jsstring) :
  In piece (split sep s) -> ~ In sep piece.
Proof.
  revert piece. induction s as [|c s IH]; simpl; intros piece H.
  - destruct H as [<-|[]]. intros [].
  - destruct (Ascii.eqb_spec c sep) as [->|N].
    + destruct H as [<-|H]; [intros []|]. exact (IH _ H).
    + destruct (split sep s) as [|p ps] eqn:E.
      * destruct H as [<-|[]]. intros [X|[]]. congruence.
      * destruct H as [<-|H].
        -- intros [X|X]; [congruence|]. exact (IH p (or_introl eq_refl) X).
        -- exact (IH _ (or_intror H)).
Qed.

Lemma nameList_keeps (text line : jsstring) :
  In line (nameList text) <-> In line (split LF text) /\ blank line = false.
Proof.
  unfold nameList. rewrite filter_In, truthy_trim, negb_true_iff. reflexivity.
Qed.

(** ** Trimming a padded line *)

Lemma dropWhile_length (p : ascii -> bool) (s : jsstring) :
  List.length (dropWhile p s) <= List.length s.
Proof.
  induction s as [|c s IH]; simpl; [lia|].
  destruct (p c); simpl; lia.
Qed.

Lemma trim_length (s : jsstring) : List.length (trim s) <= List.length s.
Proof.
  unfold trim, trimEnd, trimStart. rewrite length_rev.
  etransitivity; [apply dropWhile_length|]. rewrite length_rev.
  apply dropWhile_length.
Qed.

Lemma dropWhile_blank_prefix (pad s : jsstring) :
  blank pad = true ->
  dropWhile is_whitespace (pad ++ s) = dropWhile is_whitespace s.
Proof.
  induction pad as [|c pad IH]; simpl; [reflexivity|].
  intros H. apply andb_true_iff in H as [Hc Hp]. rewrite Hc. exact (IH Hp).
Qed.

Lemma dropWhile_app_inked (s t : jsstring) :
  blank s = false ->
  dropWhile is_whitespace (s ++ t) = dropWhile is_whitespace s ++ t.
Proof.
  induction s as [|c s IH]; simpl; [discriminate|].
  destruct (is_whitespace c); simpl; [exact IH|reflexivity].
Qed.

(** White space around a line does not change its trimmed form. *)
Lemma trim_padded (before core after : jsstring) :
  blank before = true -> blank after = true -> blank core = false ->
  trim (before ++ core ++ after) = trim core.
Proof.
  intros Hb Ha Hc. unfold trim, trimEnd, trimStart.
  rewrite (dropWhile_blank_prefix _ _ Hb), (dropWhile_app_inked _ _ Hc).
  rewrite rev_app_distr, dropWhile_blank_prefix; [reflexivity|].
  rewrite blank_rev. exact Ha.
Qed.

(** ** Lower-casing and white space in the stored names *)

(** C9: on a line that is already lower-case the transformation gives
    a name identical to the line; lower-casing twice is lower-casing
    once. *)
Theorem lowercasing_idempotent :
  forall line,
    already_lower line = true ->
    toLowerCase line = line
    /\ names_of (domainSuggestions [line]) = [line]
    /\ toLowerCase (toLowerCase line) = toLowerCase line.
Proof.
  intros line L. pose proof (toLowerCase_already_lower _ L) as E.
  split; [exact E|]. split.
  - simpl. rewrite E. reflexivity.
  - apply toLowerCase_idempotent.
Qed.

Lemma lowercasing_idempotent_witness :
  already_lower (lit "1. croissant-co") = true
  /\ toLowerCase (lit "1. croissant-co") = lit "1. croissant-co"
  /\ names_of (domainSuggestions [lit "1. croissant-co"])
     = [lit "1. croissant-co"]
  /\ toLowerCase (toLowerCase (lit "1. croissant-co"))
     = toLowerCase (lit "1. croissant-co").
Proof.
  split; [reflexivity|].
  apply lowercasing_idempotent. reflexivity.
Defined.

(** C10: a line with some non-white-space character and white space
    around it is kept as it is -- the trimmed copy only decides whether
    it stays -- and the stored name is the line lower-cased with that
    white space still in place, not the lower-cased trimmed line; as
    the split is at line feeds only, a carriage return before the line
    feed stays in the name. *)
Theorem names_keep_surrounding_whitespace :
  forall text before core after,
    blank before = true ->
    blank after = true ->
    blank core = false ->
    In (before ++ core ++ after) (split LF text) ->
    In (before ++ core ++ after) (nameList text)
    /\ In {| name := before ++ toLowerCase core ++ after;
             extensions := EXTENSIONS |}
          (domainSuggestions (nameList text))
    /\ toLowerCase (before ++ core ++ after)
       = before ++ toLowerCase core ++ after
    /\ (before ++ after <> [] ->
        toLowerCase (before ++ core ++ after)
        <> toLowerCase (trim (before ++ core ++ after))).
Proof.
  intros text before core after Hb Ha Hc Hin.
  assert (K : In (before ++ core ++ after) (nameList text)).
  { apply nameList_keeps. split; [exact Hin|].
    rewrite !blank_app, Hc. rewrite andb_false_r. reflexivity. }
  assert (L : toLowerCase (before ++ core ++ after)
              = before ++ toLowerCase core ++ after).
  { rewrite !toLowerCase_app.
    rewrite (toLowerCase_whitespace _ Hb), (toLowerCase_whitespace _ Ha).
    reflexivity. }
  split; [exact K|]. split; [|split; [exact L|]].
  - rewrite <- L. unfold domainSuggestions.
    apply (in_map (fun n => {| name := toLowerCase n;
                               extensions := EXTENSIONS |})).
    exact K.
  - intros NE E. apply (f_equal (@List.length ascii)) in E.
    rewrite (trim_padded _ _ _ Hb Ha Hc) in E.
    rewrite !toLowerCase_length, !length_app in E.
    pose proof (trim_length core).
    destruct before, after; simpl in *; try congruence; lia.
Qed.

Lemma names_keep_surrounding_whitespace_witness :
  let text := lit "Foo" ++ [CR; LF] ++ lit " Bar " in
  split LF text = [lit "Foo" ++ [CR]; lit " Bar "]
  /\ In {| name := lit "foo" ++ [CR]; extensions := EXTENSIONS |}
        (domainSuggestions (nameList text))
  /\ toLowerCase (lit "Foo" ++ [CR])
     <> toLowerCase (trim (lit "Foo" ++ [CR])).
Proof.
  split; [reflexivity|].
  destruct (names_keep_surrounding_whitespace
              (lit "Foo" ++ [CR; LF] ++ lit " Bar ") [] (lit "Foo") [CR])
    as [_ [I [_ N]]].
  - reflexivity.
  - reflexivity.
  - reflexivity.
  - left. reflexivity.
  - split; [exact I|]. apply N. discriminate.
Defined.

Example crlf_response_names :
  names_of (domainSuggestions (nameList (lit "Foo" ++ [CR; LF] ++ lit " Bar ")))
  = [lit "foo" ++ [CR]; lit " bar "].
Proof. reflexivity. Qed.

(** * Further properties of the component *)

(** The four ways through [generateDomains]. *)
Ltac handler_paths genAI w :=
  unfold after_generate;
  let B := fresh "B" in
  let A := fresh "A" in
  destruct (blank (description (ui w))) eqn:B;
  [ rewrite (generate_guarded genAI w B)
  | destruct genAI as [backend|];
    [ destruct (backend (make_prompt (description (ui w)))) as [err|text] eqn:A;
      [ rewrite (generate_thrown (Some backend) w backend err B eq_refl A)
      | rewrite (generate_answered (Some backend) w backend text B eq_refl A) ]
    | rewrite (generate_unconfigured None w B eq_refl) ] ].

(** ** The transformation as a whole *)

Lemma lower_char_keeps_whitespace (c : ascii) :
  is_whitespace (lower_char c) = is_whitespace c.
Proof. each_char c. Qed.

Lemma lower_char_keeps_LF (c : ascii) :
  Ascii.eqb (lower_char c) LF = Ascii.eqb c LF.
Proof. each_char c. Qed.

Lemma blank_toLowerCase (s : jsstring) : blank (toLowerCase s) = blank s.
Proof.
  unfold blank, toLowerCase.
  induction s as [|c s IH]; simpl; [reflexivity|].
  rewrite lower_char_keeps_whitespace, IH. reflexivity.
Qed.

Lemma split_toLowerCase (s : jsstring) :
  split LF (toLowerCase s) = map toLowerCase (split LF s).
Proof.
  unfold toLowerCase.
  induction s as [|c s IH]; [reflexivity|].
  simpl. rewrite lower_char_keeps_LF, IH.
  destruct (Ascii.eqb c LF); [reflexivity|].
  destruct (split LF s); reflexivity.
Qed.

Lemma split_app (sep : ascii) (a b : jsstring) :
  split sep (a ++ sep :: b) = split sep a ++ split sep b.
Proof.
  induction a as [|c a IH]; simpl.
  - rewrite Ascii.eqb_refl. reflexivity.
  - rewrite IH. destruct (Ascii.eqb c sep); [reflexivity|].
    pose proof (split_nonempty sep a) as NE.
    destruct (split sep a); [congruence|reflexivity].
Qed.

Lemma split_length (sep : ascii) (s : jsstring) :
  List.length (split sep s) = S (count_occ ascii_dec s sep).
Proof.
  induction s as [|c s IH]; [reflexivity|].
  simpl. destruct (Ascii.eqb_spec c sep) as [->|N].
  - destruct (ascii_dec sep sep); [|congruence]. simpl. rewrite IH. reflexivity.
  - destruct (ascii_dec c sep); [congruence|].
    pose proof (split_nonempty sep s) as NE.
    destruct (split sep s); [congruence|]. simpl in *. exact IH.
Qed.

Lemma filter_length_le {A} (f : A -> bool) (l : list A) :
  List.length (filter f l) <= List.length l.
Proof.
  induction l as [|x l IH]; simpl; [lia|].
  destruct (f x); simpl; lia.
Qed.

Lemma suggestions_of_lowered (lines : list jsstring) :
  domainSuggestions
    (filter (fun n => truthy (trim n)) (map toLowerCase lines))
  = domainSuggestions (filter (fun n => truthy (trim n)) lines).
Proof.
  induction lines as [|l ls IH]; [reflexivity|].
  simpl. rewrite !truthy_trim, blank_toLowerCase.
  destruct (blank l); simpl; [exact IH|].
  rewrite toLowerCase_idempotent, IH. reflexivity.
Qed.

(** The suggestions made from a response depend on it only up to
    letter case: lower-casing the whole response first changes nothing. *)
Theorem transform_ignores_case :
  forall text,
    domainSuggestions (nameList (toLowerCase text))
    = domainSuggestions (nameList text).
Proof.
  intros text. unfold nameList. rewrite split_toLowerCase.
  apply suggestions_of_lowered.
Qed.

(** The transformation works line by line: the suggestions made from
    two responses put together with a line feed between them are the
    suggestions of the first followed by those of the second. *)
Theorem transform_of_joined_responses :
  forall first second,
    domainSuggestions (nameList (first ++ LF :: second))
    = domainSuggestions (nameList first) ++ domainSuggestions (nameList second).
Proof.
  intros first second. unfold nameList, domainSuggestions.
  rewrite split_app, filter_app, map_app. reflexivity.
Qed.

(** A response with k line feeds gives at most k+1 suggestions; the
    empty response gives none. *)
Theorem suggestions_bounded_by_line_feeds :
  forall text,
    List.length (domainSuggestions (nameList text))
    <= S (count_occ ascii_dec text LF)
    /\ domainSuggestions (nameList []) = [].
Proof.
  intros text. split.
  - unfold domainSuggestions, nameList. rewrite length_map.
    etransitivity; [apply filter_length_le|].
    rewrite split_length. lia.
  - reflexivity.
Qed.

Lemma toLowerCase_keeps_LF_out (s : jsstring) :
  ~ In LF s -> ~ In LF (toLowerCase s).
Proof.
  intros H I. apply in_map_iff in I as [c [E I]].
  apply H. replace LF with c; [exact I|].
  apply Ascii.eqb_eq. rewrite <- lower_char_keeps_LF, E.
  apply Ascii.eqb_refl.
Qed.

Lemma well_formed_suggestions (text : jsstring) :
  Forall well_formed (domainSuggestions (nameList text)).
Proof.
  unfold domainSuggestions. apply Forall_map, Forall_forall.
  intros line K. apply nameList_keeps in K as [I B].
  unfold well_formed. simpl. repeat split.
  - rewrite blank_toLowerCase. exact B.
  - apply toLowerCase_keeps_LF_out. exact (split_pieces_clean _ _ _ I).
  - apply toLowerCase_is_lower.
Qed.



(** ** The prompt *)

(** The prompt carries the description as typed, between two fixed
    texts, so that different descriptions give different prompts. *)
Theorem prompt_determines_description :
  forall d1 d2, make_prompt d1 = make_prompt d2 -> d1 = d2.
Proof.
  unfold make_prompt. intros d1 d2 E.
  apply app_inv_head in E. apply app_inv_tail in E. exact E.
Qed.

Lemma prompt_determines_description_witness :
  make_prompt (lit "a bakery") = make_prompt (lit "a bakery")
  /\ lit "a bakery" = lit "a bakery".
Proof.
  split; [reflexivity|].
  apply prompt_determines_description. reflexivity.
Defined.

(** ** The handler on every path *)

(** Nothing escapes the handler: whatever the configuration, the state
    and the backend's behaviour, it returns normally, and it leaves
    the description as it found it. *)
Theorem handler_never_throws :
  forall genAI w,
    fst (generateDomains genAI w) = inr tt
    /\ description (ui (after_generate genAI w)) = description (ui w).
Proof.
  intros genAI w. handler_paths genAI w; split; reflexivity.
Qed.

(** An attempt that passes the guard ends with the loading flag down,
    and with no error or no suggestions: the two are never left
    together, whatever was there before. *)
Theorem attempt_ends_idle :
  forall genAI w,
    blank (description (ui w)) = false ->
    loading (ui (after_generate genAI w)) = false
    /\ (error (ui (after_generate genAI w)) = None
        \/ domains (ui (after_generate genAI w)) = []).
Proof.
  intros genAI w H. handler_paths genAI w; try congruence; simpl; auto.
Qed.

Lemma attempt_ends_idle_witness :
  let w := {| ui := {| description := lit "a bakery in Paris";
                       domains := [{| name := lit "oldname";
                                      extensions := EXTENSIONS |}];
                       loading := true;
                       error := Some (lit "earlier failure") |};
              requests := [] |} in
  let genAI := Some (answers bakery_response) in
  loading (ui (after_generate genAI w)) = false
  /\ (error (ui (after_generate genAI w)) = None
      \/ domains (ui (after_generate genAI w)) = []).
Proof.
  apply attempt_ends_idle. reflexivity.
Defined.

(** The handler only ever appends to the request log, and at most one
    entry: the prompt made from the current description, sent exactly
    when the description is not blank and a backend is configured. *)
Theorem one_request_per_attempt :
  forall genAI w,
    requests (after_generate genAI w)
    = requests w
      ++ match genAI with
         | Some _ => if blank (description (ui w)) then []
                     else [make_prompt (description (ui w))]
         | None => []
         end.
Proof.
  intros genAI w.
  handler_paths genAI w; simpl; try rewrite app_nil_r; try reflexivity.
  destruct genAI; rewrite app_nil_r; reflexivity.
Qed.

(** The suggestions of an earlier attempt never survive a later one:
    after an attempt that passes the guard the list is made from the
    new answer alone, or is empty. *)
Theorem attempt_replaces_suggestions :
  forall genAI w1 w2,
    description (ui w1) = description (ui w2) ->
    blank (description (ui w1)) = false ->
    domains (ui (after_generate genAI w1)) = domains (ui (after_generate genAI w2))
    /\ error (ui (after_generate genAI w1)) = error (ui (after_generate genAI w2)).
Proof.
  intros genAI w1 w2 E H. rewrite E in H. unfold after_generate.
  destruct genAI as [backend|].
  - destruct (backend (make_prompt (description (ui w2)))) as [err|text] eqn:A.
    + rewrite (generate_thrown (Some backend) w2 backend err H eq_refl A).
      rewrite <- E in H, A.
      rewrite (generate_thrown (Some backend) w1 backend err H eq_refl A).
      split; reflexivity.
    + rewrite (generate_answered (Some backend) w2 backend text H eq_refl A).
      rewrite <- E in H, A.
      rewrite (generate_answered (Some backend) w1 backend text H eq_refl A).
      split; reflexivity.
  - rewrite (generate_unconfigured None w2 H eq_refl).
    rewrite <- E in H.
    rewrite (generate_unconfigured None w1 H eq_refl).
    split; reflexivity.
Qed.

Lemma attempt_replaces_suggestions_witness :
  let genAI := Some (answers bakery_response) in
  let w1 := fresh_world (lit "a bakery in Paris") in
  let w2 := used_world (lit "a bakery in Paris") in
  domains (ui (after_generate genAI w1)) = domains (ui (after_generate genAI w2))
  /\ error (ui (after_generate genAI w1)) = error (ui (after_generate genAI w2)).
Proof.
  apply attempt_replaces_suggestions; reflexivity.
Defined.

(** ** What the page shows *)

Lemma cards_of (ds : list DomainSuggestion) :
  (if 0 <? List.length ds then map render_card ds else [])
  = map render_card ds.
Proof. destruct ds; reflexivity. Qed.

Lemma extensions_distinct : NoDup EXTENSIONS.
Proof.
  unfold EXTENSIONS, lit. simpl.
  repeat constructor; simpl; intuition discriminate.
Qed.

Lemma urls_of_distinct_extensions (n : jsstring) (exts : list jsstring) :
  NoDup exts -> NoDup (map (getGoDaddyUrl n) exts).
Proof.
  induction 1 as [|e exts N _ IH]; simpl; constructor; [|exact IH].
  intros I. apply in_map_iff in I as [e' [E I]].
  unfold getGoDaddyUrl in E. apply app_inv_head in E. apply app_inv_head in E.
  subst. exact (N I).
Qed.

Lemma card_links (d : DomainSuggestion) :
  map label (links (render_card d)) = map (app (name d)) (extensions d)
  /\ map href (links (render_card d))
     = map (app URL_PREFIX) (map label (links (render_card d)))
  /\ (NoDup (extensions d) -> NoDup (map href (links (render_card d)))).
Proof.
  unfold render_card. simpl. rewrite !map_map. simpl. repeat split.
  intros N. apply (urls_of_distinct_extensions (name d)) in N. exact N.
Qed.

(** After an answered attempt the page shows no banner and one card per
    non-blank line of the answer; every card has six links, labelled
    with its title followed by .com, .io, .co, .net, .org, .ai in that
    order, each leading to the registrar template followed by its own
    label, and the six targets differ from one another. *)
Theorem page_after_answer :
  forall genAI backend w text,
    blank (description (ui w)) = false ->
    genAI = Some backend ->
    backend (make_prompt (description (ui w))) = inr text ->
    banner (render (ui (after_generate genAI w))) = None
    /\ List.length (cards (render (ui (after_generate genAI w))))
       = count_nonblank (split LF text)
    /\ Forall (fun c =>
                 map label (links c) = map (app (title c)) EXTENSIONS
                 /\ map href (links c) = map (app URL_PREFIX) (map label (links c))
                 /\ NoDup (map href (links c)))
              (cards (render (ui (after_generate genAI w)))).
Proof.
  intros genAI backend w text B G A. unfold after_generate.
  rewrite (generate_answered genAI w backend text B G A).
  unfold render. simpl. rewrite cards_of. split; [reflexivity|]. split.
  - rewrite length_map, transform_refines. apply spec_suggestions_length.
  - apply Forall_map.
    pose proof (well_formed_suggestions text) as W.
    apply Forall_forall. intros d I.
    rewrite Forall_forall in W. destruct (W d I) as [_ [_ [_ X]]].
    destruct (card_links d) as [L [H N]].
    rewrite X in L, N. split; [exact L|]. split; [exact H|].
    apply N, extensions_distinct.
Qed.

Lemma page_after_answer_witness :
  let w := used_world (lit "a bakery in Paris") in
  let genAI := Some (answers bakery_response) in
  banner (render (ui (after_generate genAI w))) = None
  /\ List.length (cards (render (ui (after_generate genAI w)))) = 3.
Proof.
  destruct (page_after_answer
              (Some (answers bakery_response)) (answers bakery_response)
              (used_world (lit "a bakery in Paris")) bakery_response)
    as [Bn [L _]]; try reflexivity.
  split; [exact Bn | exact L].
Defined.

(** After a failed attempt the page shows no card; it shows the
    failure's text as banner when that text is not empty, and nothing
    at all when it is empty: an [Error] thrown with an empty message
    leaves the page without any sign of the failure. *)
Theorem page_after_failure :
  forall genAI w err,
    blank (description (ui w)) = false ->
    (genAI = None /\ err = ErrorObject CONFIG_MESSAGE)
    \/ (exists backend,
           genAI = Some backend
           /\ backend (make_prompt (description (ui w))) = inl err) ->
    cards (render (ui (after_generate genAI w))) = []
    /\ button_busy (render (ui (after_generate genAI w))) = false
    /\ (error_text err <> [] ->
        banner (render (ui (after_generate genAI w))) = Some (error_text err))
    /\ (error_text err = [] ->
        banner (render (ui (after_generate genAI w))) = None).
Proof.
  intros genAI w err B H. unfold after_generate.
  assert (E : ui (snd (generateDomains genAI w))
              = {| description := description (ui w);
                   domains := [];
                   loading := false;
                   error := Some (error_text err) |}).
  { destruct H as [[G ->] | [backend [G A]]].
    - rewrite (generate_unconfigured genAI w B G). reflexivity.
    - rewrite (generate_thrown genAI w backend err B G A). reflexivity. }
  rewrite E. unfold render. simpl. repeat split.
  - intros NE. destruct (error_text err); [congruence|reflexivity].
  - intros ->. reflexivity.
Qed.

Lemma page_after_failure_witness :
  let w := used_world (lit "a bakery in Paris") in
  let genAI := Some (fails_with (ErrorObject [])) in
  cards (render (ui (after_generate genAI w))) = []
  /\ banner (render (ui (after_generate genAI w))) = None.
Proof.
  destruct (page_after_failure
              (Some (fails_with (ErrorObject [])))
              (used_world (lit "a bakery in Paris"))
              (ErrorObject []))
    as [C [_ [_ N]]].
  - reflexivity.
  - right. exists (fails_with (ErrorObject [])). split; reflexivity.
  - split; [exact C|]. apply N. reflexivity.
Defined.

(** Whatever happens in an attempt that passes the guard, the page
    never shows an error banner and result cards together. *)
Theorem banner_and_cards_exclusive :
  forall genAI w,
    blank (description (ui w)) = false ->
    banner (render (ui (after_generate genAI w))) = None
    \/ cards (render (ui (after_generate genAI w))) = [].
Proof.
  intros genAI w H. handler_paths genAI w; try congruence;
    unfold render; simpl; auto.
Qed.

Lemma banner_and_cards_exclusive_witness :
  let w := {| ui := {| description := lit "a bakery in Paris";
                       domains := [{| name := lit "oldname";
                                      extensions := EXTENSIONS |}];
                       loading := false;
                       error := Some (lit "earlier failure") |};
              requests := [] |} in
  let genAI := Some (answers bakery_response) in
  banner (render (ui (after_generate genAI w))) = None
  \/ cards (render (ui (after_generate genAI w))) = [].
Proof.
  apply banner_and_cards_exclusive. reflexivity.
Defined.

(** ** The two halves of the handler *)

Lemma begin_guarded genAI (w : World) :
  blank (description (ui w)) = true ->
  generate_begin genAI w = (inr None, w).
Proof.
  intros B. unfold generate_begin, bind, read.
  rewrite truthy_trim, B. reflexivity.
Qed.

Lemma begin_unconfigured (w : World) :
  blank (description (ui w)) = false ->
  generate_begin None w
  = (inr None,
     {| ui := {| description := description (ui w);
                 domains := [];
                 loading := false;
                 error := Some CONFIG_MESSAGE |};
        requests := requests w |}).
Proof.
  intros B. unfold generate_begin, bind, read.
  rewrite truthy_trim, B. reflexivity.
Qed.

Lemma begin_sent backend (w : World) :
  blank (description (ui w)) = false ->
  generate_begin (Some backend) w
  = (inr (Some (make_prompt (description (ui w)))),
     {| ui := {| description := description (ui w);
                 domains := domains (ui w);
                 loading := true;
                 error := None |};
        requests := requests w ++ [make_prompt (description (ui w))] |}).
Proof.
  intros B. unfold generate_begin, bind, read.
  rewrite truthy_trim, B. reflexivity.
Qed.

Lemma resume_answered (text : jsstring) (w : World) :
  generate_resume (inr text) w
  = (inr tt,
     {| ui := {| description := description (ui w);
                 domains := domainSuggestions (nameList text);
                 loading := false;
                 error := error (ui w) |};
        requests := requests w |}).
Proof. reflexivity. Qed.

Lemma resume_thrown (err : Thrown) (w : World) :
  generate_resume (inl err) w
  = (inr tt,
     {| ui := {| description := description (ui w);
                 domains := [];
                 loading := false;
                 error := Some (error_text err) |};
        requests := requests w |}).
Proof. reflexivity. Qed.

Lemma enabled_means (s : UiState) :
  disabled s = false ->
  loading s = false /\ blank (description s) = false.
Proof.
  unfold disabled. rewrite truthy_trim, negb_involutive.
  intros H. apply orb_false_iff in H. exact H.
Qed.

(** A click and the settling of the call it started do together what
    [generateDomains] does in one go with a backend that settles that
    way; a click that starts no call does it alone. *)
Theorem click_then_settle_is_handler :
  forall genAI w,
    loading (ui w) = false ->
    let clicked := step genAI {| world := w; pending := None |} Click in
    match genAI with
    | Some backend =>
        if blank (description (ui w))
        then clicked = {| world := after_generate genAI w; pending := None |}
        else pending clicked = Some (make_prompt (description (ui w)))
             /\ step genAI clicked
                  (Settle (backend (make_prompt (description (ui w)))))
                = {| world := after_generate genAI w; pending := None |}
    | None =>
        clicked = {| world := after_generate genAI w; pending := None |}
    end.
Proof.
  intros genAI w L. unfold step, disabled. simpl. rewrite L, truthy_trim.
  rewrite negb_involutive. simpl.
  handler_paths genAI w; simpl; try reflexivity.
  - destruct genAI; reflexivity.
  - rewrite (begin_sent backend w B). simpl. split; [reflexivity|].
    reflexivity.
  - rewrite (begin_sent backend w B). simpl. split; [reflexivity|].
    reflexivity.
  - rewrite (begin_unconfigured w B). reflexivity.
Qed.

Lemma click_then_settle_is_handler_witness :
  let w := used_world (lit "a bakery in Paris") in
  let genAI := Some (answers bakery_response) in
  step genAI (step genAI {| world := w; pending := None |} Click)
       (Settle (inr bakery_response))
  = {| world := after_generate genAI w; pending := None |}.
Proof.
  exact (proj2 (click_then_settle_is_handler
                  (Some (answers bakery_response))
                  (used_world (lit "a bakery in Paris")) eq_refl)).
Defined.

(** ** The page over any sequence of events *)

Section Traces.

Variable genAI : option Backend.

Lemma initial_coherent : coherent initial.
Proof.
  unfold coherent, initial. simpl. repeat split; try congruence.
  constructor.
Qed.

Lemma step_coherent (s : Session) (ev : Event) :
  coherent s -> coherent (step genAI s ev).
Proof.
  destruct s as [w p].
  unfold coherent. simpl. intros [CL [CE [CP [CD CW]]]].
  destruct ev as [text| |outcome]; simpl.
  - repeat split; tauto.
  - destruct (disabled _) eqn:D; simpl; [repeat split; tauto|].
    apply enabled_means in D as [L B].
    destruct genAI as [backend|].
    + rewrite (begin_sent backend w B). simpl.
      repeat split; try congruence.
      intros q [= <-]. exists (requests w). reflexivity.
    + rewrite (begin_unconfigured w B). simpl.
      repeat split; try congruence; constructor.
  - destruct p as [q|]; simpl; [|repeat split; tauto].
    destruct outcome as [err|text]; simpl.
    + repeat split; try congruence; constructor.
    + repeat split; try congruence.
      * intros NE. exfalso. apply NE, CE. discriminate.
      * apply well_formed_suggestions.
Qed.

Lemma run_coherent (events : list Event) (s : Session) :
  coherent s -> coherent (run genAI events s).
Proof.
  revert s. induction events as [|ev events IH]; intros s C; [exact C|].
  simpl. apply IH, step_coherent, C.
Qed.

Lemma step_budget (s : Session) (ev : Event) :
  coherent s ->
  List.length (requests (world (step genAI s ev))) + in_flight s
  <= List.length (requests (world s)) + in_flight (step genAI s ev)
     + (if is_settle ev then 1 else 0).
Proof.
  destruct s as [w p].
  unfold coherent, in_flight. simpl. intros [CL _].
  destruct ev as [text| |outcome]; simpl.
  - lia.
  - destruct (disabled _) eqn:D; simpl; [lia|].
    apply enabled_means in D as [L B].
    assert (P : p = None).
    { destruct p; [|reflexivity]. exfalso.
      assert (X : loading (ui w) = true) by (apply CL; discriminate). congruence. }
    subst p. destruct genAI as [backend|].
    + rewrite (begin_sent backend w B). simpl. rewrite length_app. simpl. lia.
    + rewrite (begin_unconfigured w B). simpl. lia.
  - destruct p as [q|]; simpl; [|lia].
    destruct outcome; simpl; lia.
Qed.

Lemma run_budget (events : list Event) (s : Session) :
  coherent s ->
  List.length (requests (world (run genAI events s))) + in_flight s
  <= List.length (requests (world s)) + in_flight (run genAI events s)
     + List.length (filter is_settle events).
Proof.
  revert s. induction events as [|ev events IH]; intros s C; simpl; [lia|].
  pose proof (step_budget s ev C).
  pose proof (IH _ (step_coherent s ev C)).
  unfold run in *. destruct (is_settle ev); simpl; lia.
Qed.

Lemma step_sends_prompts (s : Session) (ev : Event) :
  Forall (fun p => exists d, blank d = false /\ p = make_prompt d)
         (requests (world s)) ->
  Forall (fun p => exists d, blank d = false /\ p = make_prompt d)
         (requests (world (step genAI s ev))).
Proof.
  destruct s as [w p]. simpl. intros H.
  destruct ev as [text| |outcome]; simpl; [exact H| |].
  - destruct (disabled _) eqn:D; simpl; [exact H|].
    apply enabled_means in D as [L B].
    destruct genAI as [backend|].
    + rewrite (begin_sent backend w B). simpl.
      apply Forall_app. split; [exact H|].
      constructor; [|constructor]. exists (description (ui w)). split; [exact B|reflexivity].
    + rewrite (begin_unconfigured w B). exact H.
  - destruct p; simpl; [|exact H]. destruct outcome; exact H.
Qed.


(** While a call is out the button is dead: a click changes nothing,
    so no second call starts before the first has settled. *)
Theorem click_while_in_flight_ignored :
  forall events,
    pending (run genAI events initial) <> None ->
    step genAI (run genAI events initial) Click = run genAI events initial.
Proof.
  intros events P.
  destruct (run_coherent events initial initial_coherent) as [CL _].
  apply CL in P. unfold step, disabled. rewrite P. reflexivity.
Qed.

(** Calls are made one at a time: at any moment the number of prompts
    sent is at most the number of settled calls plus the one that may
    be out. *)
Theorem one_call_at_a_time :
  forall events,
    List.length (requests (world (run genAI events initial)))
    <= List.length (filter is_settle events)
       + in_flight (run genAI events initial)
    /\ in_flight (run genAI events initial) <= 1.
Proof.
  intros events. split.
  - pose proof (run_budget events initial initial_coherent) as H.
    simpl in H. lia.
  - unfold in_flight. destruct (pending _); lia.
Qed.

(** Nothing is ever sent for a blank description: every prompt in the
    log was made from a description with some ink in it. *)
Theorem only_inked_descriptions_sent :
  forall events,
    Forall (fun p => exists d, blank d = false /\ p = make_prompt d)
           (requests (world (run genAI events initial))).
Proof.
  intros events.
  assert (G : forall s,
             Forall (fun p => exists d, blank d = false /\ p = make_prompt d)
                    (requests (world s)) ->
             Forall (fun p => exists d, blank d = false /\ p = make_prompt d)
                    (requests (world (run genAI events s)))).
  { induction events as [|ev events IH]; intros s H; [exact H|].
    simpl. apply IH, step_sends_prompts, H. }
  apply G. constructor.
Qed.

(** Typing while a call is out does not disturb it: typing and
    settling can be taken in either order. *)
Theorem typing_commutes_with_settling :
  forall s text outcome,
    step genAI (step genAI s (Input text)) (Settle outcome)
    = step genAI (step genAI s (Settle outcome)) (Input text).
Proof.
  intros [w [p|]] text [err|txt]; reflexivity.
Qed.

End Traces.

(** Without a configured backend nothing is ever sent and the button
    never stays busy, whatever the user does. *)
Theorem unconfigured_page_never_sends :
  forall events,
    requests (world (run None events initial)) = []
    /\ pending (run None events initial) = None
    /\ loading (ui (world (run None events initial))) = false.
Proof.
  intros events.
  assert (G : forall s,
             requests (world s) = [] /\ pending s = None
             /\ loading (ui (world s)) = false ->
             requests (world (run None events s)) = []
             /\ pending (run None events s) = None
             /\ loading (ui (world (run None events s))) = false).
  { induction events as [|ev events IH]; intros s H; [exact H|].
    simpl. apply IH. destruct s as [w p].
    simpl in H. destruct H as [R [-> L]].
    destruct ev as [text| |outcome]; simpl; auto.
    destruct (disabled _) eqn:D; simpl; auto.
    apply enabled_means in D as [_ B].
    rewrite (begin_unconfigured w B). simpl. auto. }
  apply G. repeat split.
Qed.

Lemma click_while_in_flight_ignored_witness :
  let genAI := Some (answers bakery_response) in
  let events := [Input (lit "a bakery in Paris"); Click] in
  pending (run genAI events initial) <> None
  /\ step genAI (run genAI events initial) Click = run genAI events initial.
Proof.
  split; [discriminate|].
  apply (click_while_in_flight_ignored
           (Some (answers bakery_response))
           [Input (lit "a bakery in Paris"); Click]).
  discriminate.
Defined.
